(** * KAFY trajectory tokenizer and detokenizer (utilFunctions.py)

    A shallow embedding of [KAFY/utilFunctions.py]: the H3 tokenizer, the
    three-tier detokenizer with its sequential state, the bearing
    computation, and the metadata loader.

    Conventions of the embedding.
    - A Python [float] is a real number: NaN, the infinities, signed zeros
      and rounding error are outside the model. For the bearing the module
      [Double] adds the finite range of a double, with its infinities, NaN
      and the ValueError of [math.sin] and [math.cos].
    - A Python [str] is a [string]; a character is a code point below 256.
    - [dict] objects that are only read or extended by key are [gmap]s.
    - A call that can raise returns a [result]; the exception is a value. *)

From Stdlib Require Import Reals Lra Lia ZArith Ascii String.
From stdpp Require Import base option list strings gmap.

(** ** Python runtime: exceptions and results *)

Inductive exn : Type :=
  | TypeError
  | ValueError
  | IndexError
  | AttributeError.

Inductive result (A : Type) : Type :=
  | Ok (a : A)
  | Raise (e : exn).
Arguments Ok {A} a.
Arguments Raise {A} e.

#[global] Instance result_ret : MRet result := fun A a => Ok a.
#[global] Instance result_bind : MBind result := fun A B f m =>
  match m with
  | Ok a => f a
  | Raise e => Raise e
  end.

(** ** Python [str] methods used by the module *)

Module Str.

(** [str.isspace] on one character, for code points below 256. *)
Definition isspace (c : ascii) : bool :=
  let n := nat_of_ascii c in
  ((9 <=? n)%nat && (n <=? 13)%nat) || ((28 <=? n)%nat && (n <=? 32)%nat)
  || (n =? 133)%nat || (n =? 160)%nat.

Fixpoint lstrip (s : string) : string :=
  match s with
  | EmptyString => EmptyString
  | String c s' => if isspace c then lstrip s' else s
  end.

Fixpoint rstrip (s : string) : string :=
  match s with
  | EmptyString => EmptyString
  | String c s' =>
      match rstrip s' with
      | EmptyString => if isspace c then EmptyString else String c EmptyString
      | r => String c r
      end
  end.

(** [s.strip()] *)
Definition strip (s : string) : string := rstrip (lstrip s).

(** [s.removeprefix]-like test: the rest of [s] after [p], when [s] starts
    with [p]. *)
Fixpoint after_prefix (p s : string) : option string :=
  match p, s with
  | EmptyString, _ => Some s
  | String a p', String b s' =>
      if Ascii.eqb a b then after_prefix p' s' else None
  | String _ _, EmptyString => None
  end.

(** [s.partition(sep)] when [sep] occurs: the text before and after the
    leftmost occurrence. *)
Fixpoint find (sep s : string) : option (string * string) :=
  match after_prefix sep s with
  | Some rest => Some (EmptyString, rest)
  | None =>
      match s with
      | EmptyString => None
      | String c s' =>
          match find sep s' with
          | Some (before, rest) => Some (String c before, rest)
          | None => None
          end
      end
  end.

(** [s.split(sep, maxsplit)] for a non-empty [sep]: cut at the leftmost
    occurrences of [sep], at most [maxsplit] times. *)
Fixpoint split (sep : string) (maxsplit : nat) (s : string) : list string :=
  match maxsplit with
  | O => [s]
  | S n =>
      match find sep s with
      | Some (before, rest) => before :: split sep n rest
      | None => [s]
      end
  end.

End Str.

(** ** Floating-point helpers of [math] and the built-in [round] *)

Module Float.
Local Open Scope R_scope.

(** [math.radians] and [math.degrees] *)
Definition radians (d : R) : R := d * PI / 180.
Definition degrees (r : R) : R := r * 180 / PI.

(** [math.atan2 y x]: the angle of the vector (x, y), in (-PI, PI]. *)
Definition atan2 (y x : R) : R :=
  if Rlt_dec 0 x then atan (y / x)
  else if Rlt_dec x 0 then
    if Rle_dec 0 y then atan (y / x) + PI else atan (y / x) - PI
  else if Rlt_dec 0 y then PI / 2
  else if Rlt_dec y 0 then - (PI / 2)
  else 0.

(** [a % b]: the remainder carries the sign of the divisor. *)
Definition mod_ (a b : R) : R := a - IZR (Int_part (a / b)) * b.

(** Nearest integer, ties to the even one. *)
Definition rint (r : R) : Z :=
  let f := Int_part r in
  let d := r - IZR f in
  if Rlt_dec d (1 / 2) then f
  else if Rlt_dec (1 / 2) d then (f + 1)%Z
  else if Z.even f then f else (f + 1)%Z.

(** [round(v, ndigits)] for [ndigits >= 0] *)
Definition round (v : R) (ndigits : nat) : R :=
  IZR (rint (v * 10 ^ ndigits)) / 10 ^ ndigits.

End Float.

(** ** class Point *)

Module Point.
Local Open Scope R_scope.

(** [x] is the longitude, [y] the latitude. *)
Record t : Type := mk { x : R; y : R }.

(** [Point.calculate_bearing(self, point_a, point_b)]: both points are
    (latitude, longitude) tuples; [self] is not used by the body. This is
    the value of the body in exact arithmetic; [PointDouble.calculate_bearing]
    below keeps the finite range of a double and the ValueError that leaving
    it brings. *)
Definition calculate_bearing (point_a point_b : R * R) : R :=
  let lat1 := Float.radians (fst point_a) in
  let lat2 := Float.radians (fst point_b) in
  let diff_long := Float.radians (snd point_b - snd point_a) in
  let x := sin diff_long * cos lat2 in
  let y := cos lat1 * sin lat2 - (sin lat1 * cos lat2 * cos diff_long) in
  let initial_bearing := Float.atan2 x y in
  let initial_bearing := Float.degrees initial_bearing in
  let compass_bearing := Float.mod_ (initial_bearing + 360) 360 in
  compass_bearing.

End Point.

(** ** Doubles with their finite range

    A double by its value. An operation returns its exact result when that
    lies in the finite range, and an infinity when it is too large, so the
    rounding of a result to the nearest double is left out and overflow is
    kept; signed zeros are not told apart. *)

Module Double.
Local Open Scope R_scope.

Inductive t : Type :=
  | Finite (r : R)
  | Infinity (negative : bool)
  | NaN.


(** The least magnitude that rounds to an infinity: half way between the
    largest finite double and 2^1024. *)
Definition huge : R := IZR (2 ^ 1024 - 2 ^ 970).

Definition negative (r : R) : bool := if Rlt_dec r 0 then true else false.

Definition is_zero (r : R) : bool := if Req_dec_T r 0 then true else false.

(** The double an operation returns when its exact result is [r]. *)
Definition of_exact (r : R) : t :=
  if Rle_dec huge (Rabs r) then Infinity (negative r) else Finite r.

(** [a + b] *)
Definition add (a b : t) : t :=
  match a, b with
  | NaN, _ | _, NaN => NaN
  | Finite x, Finite y => of_exact (x + y)
  | Finite _, Infinity n => Infinity n
  | Infinity n, Finite _ => Infinity n
  | Infinity n, Infinity n' => if Bool.eqb n n' then Infinity n else NaN
  end.

(** [a - b] *)
Definition sub (a b : t) : t :=
  match a, b with
  | NaN, _ | _, NaN => NaN
  | Finite x, Finite y => of_exact (x - y)
  | Finite _, Infinity n => Infinity (negb n)
  | Infinity n, Finite _ => Infinity n
  | Infinity n, Infinity n' => if Bool.eqb n n' then NaN else Infinity n
  end.

(** [a * b] *)
Definition mul (a b : t) : t :=
  match a, b with
  | NaN, _ | _, NaN => NaN
  | Finite x, Finite y => of_exact (x * y)
  | Finite x, Infinity n | Infinity n, Finite x =>
      if is_zero x then NaN else Infinity (xorb n (negative x))
  | Infinity n, Infinity n' => Infinity (xorb n n')
  end.

(** [math.radians] and [math.degrees]: a product with the constant. *)
Definition radians (x : t) : t := mul x (Finite (PI / 180)).
Definition degrees (x : t) : t := mul x (Finite (180 / PI)).

(** [math.sin] and [math.cos]: an infinity is outside their domain and
    raises ValueError ("math domain error"); NaN is passed on. *)
Definition sin (x : t) : result t :=
  match x with
  | Finite r => Ok (Finite (Rtrigo_def.sin r))
  | Infinity _ => Raise ValueError
  | NaN => Ok NaN
  end.

Definition cos (x : t) : result t :=
  match x with
  | Finite r => Ok (Finite (Rtrigo_def.cos r))
  | Infinity _ => Raise ValueError
  | NaN => Ok NaN
  end.

(** [math.atan2 y x], with the values the C library gives at the
    infinities. *)
Definition atan2 (y x : t) : t :=
  match y, x with
  | NaN, _ | _, NaN => NaN
  | Finite v, Finite u => Finite (Float.atan2 v u)
  | Finite v, Infinity false => Finite 0
  | Finite v, Infinity true => Finite (if negative v then - PI else PI)
  | Infinity n, Finite _ => Finite (if n then - (PI / 2) else PI / 2)
  | Infinity n, Infinity false => Finite (if n then - (PI / 4) else PI / 4)
  | Infinity n, Infinity true =>
      Finite (if n then - (3 * PI / 4) else 3 * PI / 4)
  end.

(** [a % b] for a finite divisor [b] other than zero: the remainder of an
    infinity is NaN. *)
Definition mod_ (a : t) (b : R) : t :=
  match a with
  | Finite x => Finite (Float.mod_ x b)
  | Infinity _ | NaN => NaN
  end.

End Double.

(** ** [Point.calculate_bearing] on doubles

    The body of [calculate_bearing] with the range of a double and the
    exception of [math.sin] and [math.cos] kept: the calls of the body in
    the order in which Python evaluates them. *)

Module PointDouble.

Definition calculate_bearing (point_a point_b : Double.t * Double.t)
    : result Double.t :=
  let lat1 := Double.radians (fst point_a) in
  let lat2 := Double.radians (fst point_b) in
  let diff_long := Double.radians (Double.sub (snd point_b) (snd point_a)) in
  sin_diff_long ← Double.sin diff_long;
  cos_lat2 ← Double.cos lat2;
  let x := Double.mul sin_diff_long cos_lat2 in
  cos_lat1 ← Double.cos lat1;
  sin_lat2 ← Double.sin lat2;
  sin_lat1 ← Double.sin lat1;
  cos_lat2' ← Double.cos lat2;
  cos_diff_long ← Double.cos diff_long;
  let y :=
    Double.sub (Double.mul cos_lat1 sin_lat2)
      (Double.mul (Double.mul sin_lat1 cos_lat2') cos_diff_long) in
  let initial_bearing := Double.atan2 x y in
  let initial_bearing := Double.degrees initial_bearing in
  let compass_bearing :=
    Double.mod_ (Double.add initial_bearing (Double.Finite 360)) 360 in
  Ok compass_bearing.

End PointDouble.

(** ** The [h3] package

    Modelled from the spec: the grid index is an external package, not part
    of the repository. Section 4.1 of the specification gives the three
    functions the module calls as total and pure; they are taken as the
    operations of an interface. *)

Class H3 : Type := {
  (** [h3.geo_to_h3(lat, lng, resolution)] *)
  geo_to_h3 : R -> R -> Z -> string;
  (** [h3.h3_to_geo(h)], a (lat, lng) tuple *)
  h3_to_geo : string -> R * R;
  (** [h3.h3_is_valid(h)] *)
  h3_is_valid : string -> bool
}.

(** ** Tokenizer *)

Section Tokenizer.
Context `{H3}.

Definition token2centroid_h3_yx (lat lon : R) (res : Z) : string :=
  let token := geo_to_h3 lat lon res in
  token.

(** The default value of the [resolution] parameter. *)
Definition default_resolution : Z := 10.

Definition tokenize_trajectory
    (trajectory : list (R * R)) (resolution : Z) : list string :=
  let tokens :=
    map (fun p => let '(lat, lon) := p in token2centroid_h3_yx lat lon resolution)
        trajectory in
  tokens.

End Tokenizer.

(** ** class DeTokenizer *)

(** An entry of [h3_clusters]: a dict with the keys "x", "y" and
    "current_count". *)
Module Cluster.
Record t : Type := mk { x : R; y : R; current_count : Z }.
End Cluster.

(** The fitted clustering model of an [h3_kmeans] entry, by what the module
    asks of it: [m.predict] on a single one-feature sample gives one label. *)
Record KMeans : Type := { predict : R -> Z }.

(** [means[labels][0]] for the one-element label array [labels]: the rows of
    the array [means] are (x, y, count); an index below zero counts from the
    end, and one outside the array raises IndexError. *)
Definition ndarray_row (means : list (R * R * R)) (label : Z)
    : result (R * R * R) :=
  let n := Z.of_nat (length means) in
  let i := if (label <? 0)%Z then (label + n)%Z else label in
  if ((0 <=? i)%Z && (i <? n)%Z)%bool then
    match means !! Z.to_nat i with
    | Some row => Ok row
    | None => Raise IndexError
    end
  else Raise IndexError.

Module DeTokenizer.

(** The two attributes [__init__] loads from the pickled artifacts. *)
Record t : Type := mk {
  h3_clusters : gmap string Cluster.t;
  h3_kmeans : gmap string (KMeans * list (R * R * R))
}.

Section Methods.
Context `{H3}.

Definition token2point_h3_centroid (self : t) (token : string) : Point.t :=
  let '(y, x) := h3_to_geo token in
  Point.mk x y.

Definition token2point_data_centroid (self : t) (token : string) : Point.t :=
  match h3_clusters self !! token with
  | Some cluster =>
      let '(x, y) := (Cluster.x cluster, Cluster.y cluster) in
      Point.mk x y
  | None => token2point_h3_centroid self token
  end.

Definition token2point_cluster_centroid
    (self : t) (token : string) (previous_point : option Point.t)
    : result Point.t :=
  let c := token2point_data_centroid self token in
  match h3_kmeans self !! token with
  | None => Ok c
  | Some (m, means) =>
      match previous_point with
      | None => Ok c
      | Some previous_point =>
          if match h3_clusters self !! token with
             | Some cluster => (Cluster.current_count cluster <=? 20)%Z
             | None => false
             end
          then Ok c
          else
            let angle :=
              Point.calculate_bearing
                (Point.y previous_point, Point.x previous_point)
                (Point.y c, Point.x c) in
            '(x, y, _) ← ndarray_row means (predict m angle);
            Ok (Point.mk x y)
      end
  end.

End Methods.
End DeTokenizer.

(** ** Calls through the class *)

(** The objects that reach a call of this module as positional arguments. *)
Inductive pyobj : Type :=
  | PyNone
  | PyStr (s : string)
  | PyPoint (p : Point.t)
  | PyDeTokenizer (d : DeTokenizer.t).

Definition pyobj_of_point (previous_point : option Point.t) : pyobj :=
  match previous_point with
  | Some p => PyPoint p
  | None => PyNone
  end.

Section ClassAttribute.
Context `{H3}.

(** The truth value of an object, as [not previous_point] takes it: None
    and the empty string are false; a Point and a DeTokenizer define neither
    [__bool__] nor [__len__] and are true. *)
Definition truthy (o : pyobj) : bool :=
  match o with
  | PyNone => false
  | PyStr EmptyString => false
  | PyStr (String _ _) => true
  | PyPoint _ => true
  | PyDeTokenizer _ => true
  end.

(** [DeTokenizer.token2point_cluster_centroid] read from the class and not
    from an instance: the plain function of the three parameters
    (self, token, previous_point). A call binds its positional arguments to
    them in order and raises TypeError when a parameter is left without one;
    the body runs only after that. With a receiver, a token and a previous
    point of the types the method is written for, the body is the method.
    Otherwise the body fails where it first uses the argument: a receiver
    that is no DeTokenizer has no [token2point_data_centroid]
    (AttributeError); a token that is no string is a key of no dict and is
    refused by [h3.h3_to_geo] (TypeError); a previous point that is a
    string or a DeTokenizer is only tested for truth until line 211 reads
    its attribute [y] (AttributeError). *)
Definition DeTokenizer_token2point_cluster_centroid (args : list pyobj)
    : result Point.t :=
  match args with
  | [self; token; previous_point] =>
      match self, token, previous_point with
      | PyDeTokenizer self, PyStr token, PyNone =>
          DeTokenizer.token2point_cluster_centroid self token None
      | PyDeTokenizer self, PyStr token, PyPoint p =>
          DeTokenizer.token2point_cluster_centroid self token (Some p)
      | PyDeTokenizer self, PyStr token, other =>
          let c := DeTokenizer.token2point_data_centroid self token in
          match DeTokenizer.h3_kmeans self !! token with
          | None => Ok c
          | Some _ =>
              if negb (truthy other) then Ok c
              else if match DeTokenizer.h3_clusters self !! token with
                      | Some cluster =>
                          (Cluster.current_count cluster <=? 20)%Z
                      | None => false
                      end
              then Ok c
              else Raise AttributeError
          end
      | PyDeTokenizer _, _, _ => Raise TypeError
      | _, _, _ => Raise AttributeError
      end
  | _ => Raise TypeError
  end.

End ClassAttribute.

(** ** Detokenizer *)

Section Detokenizer.
Context `{H3}.

(** The body of the [for] loop of [detokenize_trajectory], run over the
    tokens that are left: [previous_point] and [detokenized_trajectory] are
    the two local variables, and [call token previous_point] is the call
    that resolves a token to a point. The final value of both variables is
    returned. *)
Fixpoint detokenize_loop
    (call : string -> option Point.t -> result Point.t)
    (tokenized_trajectory : list string)
    (previous_point : option Point.t)
    (detokenized_trajectory : list (R * R))
    : result (option Point.t * list (R * R)) :=
  match tokenized_trajectory with
  | [] => Ok (previous_point, detokenized_trajectory)
  | token :: rest =>
      if h3_is_valid token then
        point ← call token previous_point;
        detokenize_loop call rest (Some point)
          (detokenized_trajectory
             ++ [(Float.round (Point.y point) 6, Float.round (Point.x point) 6)])
      else detokenize_loop call rest previous_point detokenized_trajectory
  end.

(** The call as the module writes it:
    [DeTokenizer.token2point_cluster_centroid(token, previous_point)]. *)
Definition detokenize_call (token : string) (previous_point : option Point.t)
    : result Point.t :=
  DeTokenizer_token2point_cluster_centroid
    [PyStr token; pyobj_of_point previous_point].

Definition detokenize_trajectory (tokenized_trajectory : list string)
    : result (list (R * R)) :=
  '(_, detokenized_trajectory) ←
    detokenize_loop detokenize_call tokenized_trajectory None [];
  Ok detokenized_trajectory.


End Detokenizer.

(** The tuple the loop appends for a resolved point. *)
Definition output_tuple (point : Point.t) : R * R :=
  (Float.round (Point.y point) 6, Float.round (Point.x point) 6).

(** ** Metadata loader *)

(** The body of the loop of [load_metadata] on one line of the file. *)
Definition load_metadata_line (metadata : gmap string string) (line : string)
    : result (gmap string string) :=
  match Str.split ": " 1 (Str.strip line) with
  | [key; value] => Ok (<[key := value]> metadata)
  | _ => Raise ValueError
  end.

Fixpoint load_metadata_loop (lines : list string)
    (metadata : gmap string string) : result (gmap string string) :=
  match lines with
  | [] => Ok metadata
  | line :: rest =>
      metadata ← load_metadata_line metadata line;
      load_metadata_loop rest metadata
  end.

(** [load_metadata], on the lines the opened file yields. *)
Definition load_metadata (lines : list string) : result (gmap string string) :=
  load_metadata_loop lines ∅.

(** ** The bearing as the specification words it

    Section 4.2: both points are converted from degrees to radians, the
    longitude difference is taken between the converted longitudes, and the
    azimuth is brought into the range of a compass. *)


(** ** Sample data: a grid that knows one cell, and a store for it *)

Module Sample.

Definition cell : string := "8928308280fffff".

Definition grid : H3 := {|
  geo_to_h3 := fun _ _ _ => cell;
  h3_to_geo := fun _ => (37, -122)%R;
  h3_is_valid := fun h => bool_decide (h = cell)
|}.

Definition model : KMeans := {| predict := fun _ => 1%Z |}.

Definition means : list (R * R * R) := [(10, 20, 5); (30, 40, 7)]%R.

(** A store whose only token has the observed centroid (x, y) = (3, 4) and
    the given sample count. *)
Definition store (count : Z) : DeTokenizer.t :=
  DeTokenizer.mk {[ cell := Cluster.mk 3 4 count ]} {[ cell := (model, means) ]}.

Definition empty_store : DeTokenizer.t := DeTokenizer.mk ∅ ∅.


(** A store whose model predicts the label 7, which is no row of [means]. *)
Definition stray_label : DeTokenizer.t :=
  DeTokenizer.mk ∅ {[ cell := ({| predict := fun _ => 7%Z |}, means) ]}.

End Sample.

(** * Properties *)

(** ** Bearing *)

Section BearingFacts.
Local Open Scope R_scope.


Lemma div_unit_interval (a b : R) : 0 <= a < b -> 0 <= a / b < 1.
Proof.
  intros [Ha Hb].
  assert (Hi : 0 < / b) by (apply Rinv_0_lt_compat; lra).
  unfold Rdiv. split.
  - apply Rmult_le_pos; lra.
  - apply Rmult_lt_reg_r with (r := b); [lra|].
    rewrite Rmult_assoc, Rinv_l by lra. lra.
Qed.

Lemma mod_small (a b : R) : 0 <= a < b -> Float.mod_ a b = a.
Proof.
  intros [Ha Hb]. unfold Float.mod_.
  assert (Hz : 0%Z = Int_part (a / b)).
  { apply Int_part_spec. pose proof (div_unit_interval a b (conj Ha Hb)). lra. }
  rewrite <- Hz. lra.
Qed.

Lemma mod_shift (a b : R) : 0 < b -> 0 <= a < b -> Float.mod_ (a + b) b = a.
Proof.
  intros Hb [Ha Hab]. unfold Float.mod_.
  assert (Hz : 1%Z = Int_part ((a + b) / b)).
  { apply Int_part_spec.
    assert (E : (a + b) / b = a / b + 1) by (field; lra).
    rewrite E. pose proof (div_unit_interval a b (conj Ha Hab)). lra. }
  rewrite <- Hz. lra.
Qed.




End BearingFacts.

Section BearingClaims.
Local Open Scope R_scope.

Lemma radians_0 : Float.radians 0 = 0.
Proof. unfold Float.radians. lra. Qed.


Lemma degrees_PI2 : Float.degrees (PI / 2) = 90.
Proof. unfold Float.degrees. pose proof PI_neq0. field. assumption. Qed.




(** *** The range of a double *)




















End BearingClaims.


(** ** Tokenizer *)

Section TokenizerClaims.
Context `{H3}.

Lemma tokenize_trajectory_map (trajectory : list (R * R)) (resolution : Z) :
  tokenize_trajectory trajectory resolution
  = (fun p => geo_to_h3 (fst p) (snd p) resolution) <$> trajectory.
Proof.
  unfold tokenize_trajectory, token2centroid_h3_yx.
  induction trajectory as [|[lat lon] rest IH]; [reflexivity|].
  cbn. f_equal. exact IH.
Qed.

(** C8. The tokens of a trajectory are as many as its points; the token at
    each position is the grid index's token of the point at that position
    at the given resolution; and nothing is carried from one point to the
    next: the tokens of two trajectories put end to end are the tokens of
    the first followed by the tokens of the second. *)
Theorem tokenize_trajectory_pointwise
    (trajectory : list (R * R)) (resolution : Z) :
  length (tokenize_trajectory trajectory resolution) = length trajectory
  /\ (forall i : nat,
        tokenize_trajectory trajectory resolution !! i
        = (fun p => geo_to_h3 (fst p) (snd p) resolution) <$> trajectory !! i)
  /\ (forall more : list (R * R),
        tokenize_trajectory (trajectory ++ more) resolution
        = tokenize_trajectory trajectory resolution
            ++ tokenize_trajectory more resolution).
Proof.
  rewrite tokenize_trajectory_map. split; [|split].
  - apply length_fmap.
  - intros i. apply list_lookup_fmap.
  - intros more. rewrite !tokenize_trajectory_map. apply fmap_app.
Qed.

End TokenizerClaims.

(** ** Point resolution *)

Section ResolveClaims.
Context `{H3}.

Lemma data_centroid_known (self : DeTokenizer.t) (token : string)
    (cluster : Cluster.t) :
  DeTokenizer.h3_clusters self !! token = Some cluster ->
  DeTokenizer.token2point_data_centroid self token
  = Point.mk (Cluster.x cluster) (Cluster.y cluster).
Proof.
  intros Hc. unfold DeTokenizer.token2point_data_centroid.
  rewrite Hc. reflexivity.
Qed.

Lemma data_centroid_unknown (self : DeTokenizer.t) (token : string) :
  DeTokenizer.h3_clusters self !! token = None ->
  DeTokenizer.token2point_data_centroid self token
  = Point.mk (snd (h3_to_geo token)) (fst (h3_to_geo token)).
Proof.
  intros Hc.
  unfold DeTokenizer.token2point_data_centroid,
    DeTokenizer.token2point_h3_centroid.
  rewrite Hc. destruct (h3_to_geo token) as [lat lng]. reflexivity.
Qed.

Lemma cluster_centroid_unknown (self : DeTokenizer.t) (token : string)
    (previous_point : option Point.t) :
  DeTokenizer.h3_clusters self !! token = None ->
  DeTokenizer.h3_kmeans self !! token = None ->
  DeTokenizer.token2point_cluster_centroid self token previous_point
  = Ok (Point.mk (snd (h3_to_geo token)) (fst (h3_to_geo token))).
Proof.
  intros Hc Hk. unfold DeTokenizer.token2point_cluster_centroid.
  rewrite Hk, (data_centroid_unknown _ _ Hc). reflexivity.
Qed.

Lemma h3_centroid_coordinates (self : DeTokenizer.t) (token : string) :
  DeTokenizer.token2point_h3_centroid self token
  = Point.mk (snd (h3_to_geo token)) (fst (h3_to_geo token)).
Proof.
  unfold DeTokenizer.token2point_h3_centroid.
  destruct (h3_to_geo token) as [lat lng]. reflexivity.
Qed.


(** C3. A token that is a key of neither mapping resolves, for every value
    of the previous point, to the centroid of its grid cell: the point whose
    y is the latitude and whose x is the longitude [h3_to_geo] gives. *)
Theorem unknown_token_h3_centroid
    (self : DeTokenizer.t) (token : string) (previous_point : option Point.t) :
  DeTokenizer.h3_clusters self !! token = None ->
  DeTokenizer.h3_kmeans self !! token = None ->
  DeTokenizer.token2point_cluster_centroid self token previous_point
  = Ok (DeTokenizer.token2point_h3_centroid self token)
  /\ DeTokenizer.token2point_h3_centroid self token
     = Point.mk (snd (h3_to_geo token)) (fst (h3_to_geo token)).
Proof.
  intros Hc Hk. split.
  - rewrite h3_centroid_coordinates.
    apply cluster_centroid_unknown; assumption.
  - apply h3_centroid_coordinates.
Qed.

End ResolveClaims.


(** C3, on the empty store: the sample cell resolves to (x, y) = (-122, 37). *)
Lemma unknown_token_h3_centroid_sample :
  @DeTokenizer.token2point_cluster_centroid Sample.grid
     Sample.empty_store Sample.cell (Some (Point.mk 1 2))
  = Ok (@DeTokenizer.token2point_h3_centroid Sample.grid
          Sample.empty_store Sample.cell)
  /\ @DeTokenizer.token2point_h3_centroid Sample.grid
       Sample.empty_store Sample.cell
     = Point.mk (-122) 37.
Proof.
  apply (@unknown_token_h3_centroid Sample.grid Sample.empty_store
           Sample.cell (Some (Point.mk 1 2))); reflexivity.
Defined.

(** ** The detokenizer loop *)

Section LoopFacts.
Context `{H3}.
Implicit Types (call : string -> option Point.t -> result Point.t).

Lemma detokenize_loop_invalid call token rest previous_point out :
  h3_is_valid token = false ->
  detokenize_loop call (token :: rest) previous_point out
  = detokenize_loop call rest previous_point out.
Proof. intros Hv. cbn [detokenize_loop]. rewrite Hv. reflexivity. Qed.

Lemma detokenize_loop_valid call token rest previous_point out :
  h3_is_valid token = true ->
  detokenize_loop call (token :: rest) previous_point out
  = (point ← call token previous_point;
     detokenize_loop call rest (Some point) (out ++ [output_tuple point])).
Proof. intros Hv. cbn [detokenize_loop]. rewrite Hv. reflexivity. Qed.

Lemma detokenize_loop_app call before after previous_point out :
  detokenize_loop call (before ++ after) previous_point out
  = ('(previous_point, out) ← detokenize_loop call before previous_point out;
     detokenize_loop call after previous_point out).
Proof.
  revert previous_point out.
  induction before as [|token before IH]; intros previous_point out.
  - reflexivity.
  - cbn [app detokenize_loop].
    destruct (h3_is_valid token); [|apply IH].
    destruct (call token previous_point) as [point|e]; [|reflexivity].
    cbn. apply IH.
Qed.

Lemma last_cons_default {A} (l : list A) (a d : A) :
  List.last (a :: l) d = List.last l a.
Proof.
  revert a d. induction l as [|b l IH]; intros a d; [reflexivity|].
  change (List.last (b :: l) d = List.last (b :: l) a).
  rewrite !IH. reflexivity.
Qed.

(** What a finished run has appended: one tuple per valid token, each the
    rounded (y, x) of a point the call returned. *)
Lemma detokenize_loop_output call tokens previous_point out previous_point' out' :
  detokenize_loop call tokens previous_point out = Ok (previous_point', out') ->
  exists points : list Point.t,
    out' = out ++ map output_tuple points
    /\ length points = length (filter (fun t => h3_is_valid t = true) tokens)
    /\ previous_point' = List.last (map Some points) previous_point.
Proof.
  revert previous_point out.
  induction tokens as [|token rest IH]; intros previous_point out Hrun.
  - cbn in Hrun. injection Hrun as <- <-. exists []. cbn.
    rewrite app_nil_r. auto.
  - cbn [detokenize_loop] in Hrun. rewrite filter_cons.
    destruct (h3_is_valid token) eqn:Hv.
    + destruct (call token previous_point) as [point|e]; [|discriminate].
      cbn in Hrun. destruct (IH _ _ Hrun) as (points & -> & Hlen & ->).
      exists (point :: points). rewrite decide_True by reflexivity.
      cbn [map length]. rewrite <- app_assoc. cbn [app].
      repeat split; [congruence|].
      symmetry. apply last_cons_default.
    + rewrite decide_False by discriminate. exact (IH _ _ Hrun).
Qed.

(** The call the module writes never reaches the body of the method. *)
Lemma detokenize_call_raises token previous_point :
  detokenize_call token previous_point = Raise TypeError.
Proof. reflexivity. Qed.

Lemma detokenize_loop_as_written tokens previous_point out :
  detokenize_loop detokenize_call tokens previous_point out
  = if existsb h3_is_valid tokens then Raise TypeError
    else Ok (previous_point, out).
Proof.
  induction tokens as [|token rest IH]; [reflexivity|].
  cbn [detokenize_loop existsb]. destruct (h3_is_valid token); [reflexivity|].
  exact IH.
Qed.

End LoopFacts.

(** ** Detokenizer *)

Section DetokenizerClaims.
Context `{H3}.
Implicit Types (call : string -> option Point.t -> result Point.t).

(** C1. [detokenize_trajectory] does not return for every input: the call
    it makes for a valid token goes through the class with two arguments
    for three parameters, so the first valid token raises TypeError; the
    function returns, with the empty list, exactly when no token is valid. *)
Theorem detokenize_trajectory_raises (tokenized_trajectory : list string) :
  detokenize_trajectory tokenized_trajectory
  = if existsb h3_is_valid tokenized_trajectory then Raise TypeError
    else Ok [].
Proof.
  unfold detokenize_trajectory. rewrite detokenize_loop_as_written.
  destruct (existsb h3_is_valid tokenized_trajectory); reflexivity.
Qed.

(** C5. A token that fails the validity check is skipped: the loop goes on
    with the same previous point and the same output, wherever the token
    stands in the sequence; the call for the next valid token therefore
    receives the previous point as it was before the skipped token; and
    [detokenize_trajectory] gives the same result with and without it. *)
Theorem invalid_token_skipped call (token : string) :
  h3_is_valid token = false ->
  (forall rest previous_point out,
     detokenize_loop call (token :: rest) previous_point out
     = detokenize_loop call rest previous_point out)
  /\ (forall next rest previous_point out,
        h3_is_valid next = true ->
        detokenize_loop call (token :: next :: rest) previous_point out
        = (point ← call next previous_point;
           detokenize_loop call rest (Some point)
             (out ++ [(Float.round (Point.y point) 6,
                       Float.round (Point.x point) 6)])))
  /\ (forall before after previous_point out,
        detokenize_loop call (before ++ token :: after) previous_point out
        = detokenize_loop call (before ++ after) previous_point out)
  /\ (forall before after,
        detokenize_trajectory (before ++ token :: after)
        = detokenize_trajectory (before ++ after)).
Proof.
  intros Hv. repeat split.
  - intros. apply detokenize_loop_invalid, Hv.
  - intros next rest previous_point out Hn.
    rewrite (detokenize_loop_invalid _ _ _ _ _ Hv).
    apply detokenize_loop_valid, Hn.
  - intros before after previous_point out.
    rewrite !detokenize_loop_app.
    destruct (detokenize_loop call before previous_point out) as [[p o]|e];
      [|reflexivity].
    cbn. apply detokenize_loop_invalid, Hv.
  - intros before after. unfold detokenize_trajectory.
    rewrite !detokenize_loop_app.
    destruct (detokenize_loop detokenize_call before None []) as [[p o]|e];
      [|reflexivity].
    cbn. rewrite Hv. reflexivity.
Qed.


End DetokenizerClaims.

Section OutputShape.
Context `{H3}.

Lemma filter_length_all {A} (P : A -> Prop) `{!forall a, Decision (P a)}
    (l : list A) :
  length (filter P l) = length l <-> Forall P l.
Proof.
  induction l as [|a l IH].
  - split; [constructor|reflexivity].
  - rewrite filter_cons. pose proof (length_filter P l) as Hle.
    destruct (decide (P a)) as [Ha|Ha]; cbn [length].
    + rewrite Forall_cons. split.
      * intros Hl. split; [exact Ha|]. apply IH. lia.
      * intros [_ Hl]. apply IH in Hl. lia.
    + split; [lia|]. intros Hl. apply Forall_cons in Hl. tauto.
Qed.



End OutputShape.

(** C4. The length law fails on the module as written. On the sample grid
    the one-token sequence of the sample cell has every token valid, and
    [detokenize_trajectory] raises TypeError on it instead of returning one
    point; on every grid, a sequence that starts with a valid token raises,
    and a sequence the function returns from yields the empty list. *)
Theorem detokenize_trajectory_length_defect :
  forallb (@h3_is_valid Sample.grid) [Sample.cell] = true
  /\ @detokenize_trajectory Sample.grid [Sample.cell] = Raise TypeError
  /\ (forall (grid : H3) (token : string) (rest : list string),
        @h3_is_valid grid token = true ->
        @detokenize_trajectory grid (token :: rest) = Raise TypeError)
  /\ (forall (grid : H3) (tokens : list string) (out : list (R * R)),
        @detokenize_trajectory grid tokens = Ok out -> out = []).
Proof.
  split; [reflexivity|]. split; [reflexivity|]. split.
  - intros grid token rest Hv. unfold detokenize_trajectory.
    rewrite detokenize_loop_as_written.
    cbn [existsb]. rewrite Hv. reflexivity.
  - intros grid tokens out. unfold detokenize_trajectory.
    rewrite detokenize_loop_as_written.
    destruct (existsb h3_is_valid tokens); [discriminate|].
    intros Hout. injection Hout as <-. reflexivity.
Qed.

(** C5, on the sample grid: the text "zz" is no cell, and is skipped by the
    loop that calls the method on the sample store. *)
Lemma invalid_token_skipped_sample :
  @detokenize_loop Sample.grid
    (@DeTokenizer.token2point_cluster_centroid Sample.grid (Sample.store 21))
    ["zz"; Sample.cell] (Some (Point.mk 1 2)) []
  = @detokenize_loop Sample.grid
      (@DeTokenizer.token2point_cluster_centroid Sample.grid (Sample.store 21))
      [Sample.cell] (Some (Point.mk 1 2)) [].
Proof.
  apply (proj1 (@invalid_token_skipped Sample.grid
                  (@DeTokenizer.token2point_cluster_centroid Sample.grid
                     (Sample.store 21))
                  "zz" eq_refl)).
Defined.



(** ** Metadata loader *)

Section StrFacts.
Implicit Types (s sep a b : string) (c : ascii).

Lemma append_nil s : "" +:+ s = s.
Proof. reflexivity. Qed.

Lemma append_cons c s1 s2 : String c s1 +:+ s2 = String c (s1 +:+ s2).
Proof. reflexivity. Qed.

Lemma append_assoc s1 s2 s3 : (s1 +:+ s2) +:+ s3 = s1 +:+ (s2 +:+ s3).
Proof.
  induction s1 as [|c s1 IH]; [reflexivity|].
  rewrite !append_cons, IH. reflexivity.
Qed.

Lemma append_split_length a b a' b' :
  a +:+ b = a' +:+ b' -> String.length a = String.length a' ->
  a = a' /\ b = b'.
Proof.
  revert a'. induction a as [|c a IH]; intros [|c' a'] Heq Hlen;
    try discriminate Hlen.
  - auto.
  - rewrite !append_cons in Heq.
    injection Heq as -> Heq. injection Hlen as Hlen.
    destruct (IH _ Heq Hlen) as [-> ->]. auto.
Qed.

Lemma after_prefix_spec sep s rest :
  Str.after_prefix sep s = Some rest <-> s = sep +:+ rest.
Proof.
  revert s. induction sep as [|c sep IH]; intros s; cbn [Str.after_prefix].
  - rewrite append_nil. split; congruence.
  - rewrite append_cons. destruct s as [|d s]; [split; discriminate|].
    destruct (Ascii.eqb_spec c d) as [->|Hne].
    + rewrite IH. split; congruence.
    + split; [discriminate|]. intros Heq. injection Heq as -> _.
      contradiction.
Qed.

Lemma find_Some sep s a b :
  Str.find sep s = Some (a, b) ->
  s = a +:+ sep +:+ b
  /\ forall a' b', s = a' +:+ sep +:+ b' -> String.length a <= String.length a'.
Proof.
  revert a. induction s as [|c s IH]; intros a; cbn [Str.find].
  - destruct (Str.after_prefix sep "") as [rest|] eqn:Hp; [|discriminate].
    intros Heq. injection Heq as <- <-.
    apply after_prefix_spec in Hp. split; [exact Hp|]. intros; cbn; lia.
  - destruct (Str.after_prefix sep (String c s)) as [rest|] eqn:Hp.
    + intros Heq. injection Heq as <- <-.
      apply after_prefix_spec in Hp. split; [exact Hp|]. intros; cbn; lia.
    + destruct (Str.find sep s) as [[before rest]|] eqn:Hf; [|discriminate].
      intros Heq. injection Heq as <- <-.
      destruct (IH _ eq_refl) as [Hs Hmin]. split.
      * rewrite append_cons. f_equal. exact Hs.
      * intros [|c' a'] b' Heq.
        -- rewrite append_nil in Heq.
           apply after_prefix_spec in Heq. congruence.
        -- rewrite append_cons in Heq. injection Heq as _ Heq.
           apply Hmin in Heq. cbn. lia.
Qed.

Lemma find_None sep s :
  Str.find sep s = None -> forall a b, s <> a +:+ sep +:+ b.
Proof.
  induction s as [|c s IH]; cbn [Str.find].
  - destruct (Str.after_prefix sep "") as [rest|] eqn:Hp; [discriminate|].
    intros _ [|c' a] b Heq; [|rewrite append_cons in Heq; discriminate].
    rewrite append_nil in Heq.
    apply after_prefix_spec in Heq. congruence.
  - destruct (Str.after_prefix sep (String c s)) as [rest|] eqn:Hp;
      [discriminate|].
    destruct (Str.find sep s) as [[before rest]|] eqn:Hf; [discriminate|].
    intros _ [|c' a] b Heq.
    + rewrite append_nil in Heq.
      apply after_prefix_spec in Heq. congruence.
    + rewrite append_cons in Heq. injection Heq as _ Heq.
      exact (IH eq_refl _ _ Heq).
Qed.

Lemma find_first sep s a b :
  s = a +:+ sep +:+ b ->
  (forall a' b', s = a' +:+ sep +:+ b' -> String.length a <= String.length a') ->
  Str.find sep s = Some (a, b).
Proof.
  intros Hs Hmin.
  destruct (Str.find sep s) as [[a0 b0]|] eqn:Hf.
  - destruct (find_Some _ _ _ _ Hf) as [Hs0 Hmin0].
    pose proof (Hmin _ _ Hs0). pose proof (Hmin0 _ _ Hs).
    rewrite Hs in Hs0.
    destruct (append_split_length _ _ _ _ Hs0 ltac:(lia)) as [-> Hrest].
    apply String.app_inj in Hrest. congruence.
  - exfalso. exact (find_None _ _ Hf _ _ Hs).
Qed.

Lemma lstrip_suffix s : exists l, s = l +:+ Str.lstrip s.
Proof.
  induction s as [|c s [l IH]]; cbn [Str.lstrip].
  - exists "". reflexivity.
  - destruct (Str.isspace c).
    + exists (String c l). rewrite append_cons. f_equal. exact IH.
    + exists "". reflexivity.
Qed.

Lemma rstrip_prefix s : exists r, s = Str.rstrip s +:+ r.
Proof.
  induction s as [|c s [r IH]]; cbn [Str.rstrip].
  - exists "". reflexivity.
  - destruct (Str.rstrip s) as [|d t] eqn:Hr.
    + destruct (Str.isspace c).
      * exists (String c s). reflexivity.
      * exists r. rewrite append_cons. f_equal. exact IH.
    + exists r. rewrite append_cons. f_equal. exact IH.
Qed.

(** The stripped line is a piece of the line. *)
Lemma strip_substring s : exists l r, s = l +:+ Str.strip s +:+ r.
Proof.
  unfold Str.strip.
  destruct (lstrip_suffix s) as [l Hl].
  destruct (rstrip_prefix (Str.lstrip s)) as [r Hr].
  exists l, r. rewrite <- Hr. exact Hl.
Qed.

Lemma strip_keeps_absence sep s :
  (forall a b, s <> a +:+ sep +:+ b) ->
  forall a b, Str.strip s <> a +:+ sep +:+ b.
Proof.
  intros Hno a b Heq.
  destruct (strip_substring s) as (l & r & Hs).
  apply (Hno (l +:+ a) (b +:+ r)).
  rewrite Hs, Heq, !append_assoc. reflexivity.
Qed.

End StrFacts.

Section LoaderClaims.
Implicit Types (metadata : gmap string string) (line key value : string).

Lemma load_metadata_line_found metadata line key value :
  Str.find ": " (Str.strip line) = Some (key, value) ->
  load_metadata_line metadata line = Ok (<[key := value]> metadata).
Proof.
  intros Hf. unfold load_metadata_line. cbn [Str.split].
  rewrite Hf. reflexivity.
Qed.

Lemma load_metadata_line_not_found metadata line :
  Str.find ": " (Str.strip line) = None ->
  load_metadata_line metadata line = Raise ValueError.
Proof.
  intros Hf. unfold load_metadata_line. cbn [Str.split].
  rewrite Hf. reflexivity.
Qed.

Lemma load_metadata_line_exn metadata line e :
  load_metadata_line metadata line = Raise e -> e = ValueError.
Proof.
  destruct (Str.find ": " (Str.strip line)) as [[key value]|] eqn:Hf.
  - rewrite (load_metadata_line_found _ _ _ _ Hf). discriminate.
  - rewrite (load_metadata_line_not_found _ _ Hf). congruence.
Qed.

Lemma load_metadata_loop_bad_line (lines : list string) line metadata :
  line ∈ lines ->
  Str.find ": " (Str.strip line) = None ->
  load_metadata_loop lines metadata = Raise ValueError.
Proof.
  intros Hin Hf. revert metadata.
  induction Hin as [line rest|line other rest Hin IH]; intros metadata;
    cbn [load_metadata_loop].
  - rewrite (load_metadata_line_not_found _ _ Hf). reflexivity.
  - destruct (load_metadata_line metadata other) as [metadata'|e] eqn:Hl.
    + cbn [mbind result_bind]. apply IH, Hf.
    + apply load_metadata_line_exn in Hl. subst e. reflexivity.
Qed.

(** C10. Each line is cut at the first ": " of its stripped text only: when
    [key] is the text before the leftmost ": " and [value] all the text
    after it, further ": " included, the loader maps [key] to [value] and
    goes on to the next line. A line in which ": " does not occur makes the
    loader raise ValueError, wherever the line stands in the file. *)
Theorem load_metadata_first_separator :
  (forall line key value (rest : list string) metadata,
     Str.strip line = key +:+ ": " +:+ value ->
     (forall a b : string,
        Str.strip line = a +:+ ": " +:+ b ->
        String.length key <= String.length a) ->
     load_metadata_loop (line :: rest) metadata
     = load_metadata_loop rest (<[key := value]> metadata))
  /\ (forall (lines : list string) line,
        line ∈ lines ->
        (forall a b : string, line <> a +:+ ": " +:+ b) ->
        load_metadata lines = Raise ValueError).
Proof.
  split.
  - intros line key value rest metadata Hs Hmin.
    cbn [load_metadata_loop].
    rewrite (load_metadata_line_found _ _ _ _ (find_first _ _ _ _ Hs Hmin)).
    reflexivity.
  - intros lines line Hin Hno. unfold load_metadata.
    apply (load_metadata_loop_bad_line lines line ∅ Hin).
    destruct (Str.find ": " (Str.strip line)) as [[key value]|] eqn:Hf;
      [|reflexivity].
    apply find_Some in Hf. destruct Hf as [Hs _].
    exfalso. exact (strip_keeps_absence _ _ Hno _ _ Hs).
Qed.

End LoaderClaims.

(** C10, on two small files: a value that holds ": " is kept whole, and a
    line without the separator raises. *)
Lemma load_metadata_first_separator_sample :
  load_metadata ["name: a: b" +:+ String "010"%char ""]
  = Ok (<["name" := "a: b"]> ∅)
  /\ load_metadata ["k: v"; "novalue"] = Raise ValueError.
Proof.
  split.
  - exact (proj1 load_metadata_first_separator
             ("name: a: b" +:+ String "010"%char "") "name" "a: b" [] ∅
             eq_refl
             (proj2 (find_Some ": " "name: a: b" "name" "a: b" eq_refl))).
  - apply (proj2 load_metadata_first_separator ["k: v"; "novalue"] "novalue").
    + apply list_elem_of_In. right. left. reflexivity.
    + exact (find_None ": " "novalue" eq_refl).
Defined.

(** * Further properties of the module *)

(** ** Bearing: the four cardinal directions and coincident points *)

Section BearingDirections.
Local Open Scope R_scope.

Lemma radians_range (d : R) :
  0 < d < 180 -> 0 < Float.radians d < PI.
Proof.
  intros [Hlo Hhi]. unfold Float.radians. pose proof PI_RGT_0 as Hpi.
  split.
  - apply Rdiv_lt_0_compat; [apply Rmult_lt_0_compat; lra|lra].
  - assert (d * PI < 180 * PI) by (apply Rmult_lt_compat_r; lra). lra.
Qed.

Lemma radians_opp (d : R) : Float.radians (- d) = - Float.radians d.
Proof. unfold Float.radians. lra. Qed.


Lemma degrees_opp_PI2 : Float.degrees (- (PI / 2)) = - 90.
Proof. unfold Float.degrees. pose proof PI_neq0. field. assumption. Qed.



Lemma atan2_pos_zero (u : R) : 0 < u -> Float.atan2 u 0 = PI / 2.
Proof.
  intros Hu. unfold Float.atan2.
  destruct (Rlt_dec 0 0) as [H0|_]; [lra|].
  destruct (Rlt_dec 0 u) as [_|Hn]; [reflexivity|contradiction].
Qed.

Lemma atan2_neg_zero (u : R) : u < 0 -> Float.atan2 u 0 = - (PI / 2).
Proof.
  intros Hu. unfold Float.atan2.
  destruct (Rlt_dec 0 0) as [H0|_]; [lra|].
  destruct (Rlt_dec 0 u) as [Hp|_]; [lra|].
  destruct (Rlt_dec u 0) as [_|Hn]; [reflexivity|contradiction].
Qed.

Lemma atan2_origin : Float.atan2 0 0 = 0.
Proof.
  unfold Float.atan2.
  destruct (Rlt_dec 0 0) as [H0|_]; [lra|reflexivity].
Qed.



(** X2. Along the equator the bearing is due east or due west: between two
    points of latitude 0 it is 90 when the destination lies less than 180
    degrees of longitude to the east, and 270 when it lies less than 180
    degrees to the west. *)
Theorem calculate_bearing_equator (lon1 lon2 : R) :
  (0 < lon2 - lon1 < 180 ->
   Point.calculate_bearing (0, lon1) (0, lon2) = 90)
  /\ (0 < lon1 - lon2 < 180 ->
      Point.calculate_bearing (0, lon1) (0, lon2) = 270).
Proof.
  split; intros Hd; unfold Point.calculate_bearing; cbn [fst snd];
    rewrite radians_0, sin_0, cos_0;
    match goal with
    | |- context [Float.atan2 (?u * 1) ?v] =>
        replace v with 0 by lra; replace (u * 1) with u by lra
    end.
  - rewrite atan2_pos_zero.
    + rewrite degrees_PI2. apply mod_shift; lra.
    + apply sin_gt_0; apply radians_range; exact Hd.
  - rewrite atan2_neg_zero.
    + rewrite degrees_opp_PI2. replace (- 90 + 360) with 270 by lra.
      apply mod_small. lra.
    + replace (lon2 - lon1) with (- (lon1 - lon2)) by lra.
      rewrite radians_opp, sin_neg.
      pose proof (radians_range _ Hd) as [Hlo Hhi].
      pose proof (sin_gt_0 _ Hlo Hhi). lra.
Qed.

(** X3. The bearing from a point to itself is 0: both components vanish and
    [atan2] of the origin is 0, so coincident points give north and no
    error. *)
Theorem calculate_bearing_same_point (point : R * R) :
  Point.calculate_bearing point point = 0.
Proof.
  destruct point as [lat lon].
  unfold Point.calculate_bearing. cbn [fst snd].
  replace (lon - lon) with 0 by lra.
  rewrite radians_0, sin_0, cos_0.
  match goal with
  | |- context [Float.atan2 ?u ?v] =>
      replace u with 0 by lra; replace v with 0 by lra
  end.
  rewrite atan2_origin.
  replace (Float.degrees 0) with 0 by (unfold Float.degrees; lra).
  apply mod_shift; lra.
Qed.

End BearingDirections.


(** X2, between longitudes 5 and 15 on the equator. *)
Lemma calculate_bearing_equator_sample :
  Point.calculate_bearing (0, 5)%R (0, 15)%R = 90%R
  /\ Point.calculate_bearing (0, 15)%R (0, 5)%R = 270%R.
Proof.
  split.
  - apply (proj1 (calculate_bearing_equator 5 15)). lra.
  - apply (proj2 (calculate_bearing_equator 15 5)). lra.
Defined.

(** ** Point resolution: the gates of the third tier and its one exception *)

Section ResolveGates.
Context `{H3}.


(** X5. Without a previous point the method returns the data centroid and
    cannot raise: the x and y of the cluster entry when the token has one,
    the longitude and latitude of the cell otherwise, whatever the
    classifier mapping holds. The first valid token of a trajectory is
    therefore never refined. *)
Theorem first_token_data_centroid (self : DeTokenizer.t) (token : string) :
  DeTokenizer.token2point_cluster_centroid self token None
  = Ok match DeTokenizer.h3_clusters self !! token with
       | Some cluster => Point.mk (Cluster.x cluster) (Cluster.y cluster)
       | None => Point.mk (snd (h3_to_geo token)) (fst (h3_to_geo token))
       end.
Proof.
  unfold DeTokenizer.token2point_cluster_centroid.
  destruct (DeTokenizer.h3_clusters self !! token) as [cluster|] eqn:Hc.
  - rewrite (data_centroid_known _ _ _ Hc).
    destruct (DeTokenizer.h3_kmeans self !! token) as [[m means]|];
      reflexivity.
  - rewrite (data_centroid_unknown _ _ Hc).
    destruct (DeTokenizer.h3_kmeans self !! token) as [[m means]|];
      reflexivity.
Qed.



End ResolveGates.



(** ** The detokenizer loop: counts, exceptions, chunks *)

Section RoundFacts.
Local Open Scope R_scope.

Lemma rint_half (r : R) : Rabs (IZR (Float.rint r) - r) <= 1 / 2.
Proof.
  unfold Float.rint. destruct (base_Int_part r) as [Hlo Hhi].
  set (f := Int_part r) in *.
  assert (Hs : IZR (f + 1) = IZR f + 1) by (rewrite plus_IZR; reflexivity).
  apply Rabs_le.
  destruct (Rlt_dec (r - IZR f) (1 / 2)) as [Hd|Hd]; [lra|].
  destruct (Rlt_dec (1 / 2) (r - IZR f)) as [Hu|Hu].
  - rewrite Hs. lra.
  - destruct (Z.even f); [|rewrite Hs]; lra.
Qed.

Lemma round_6_close (v : R) : Rabs (Float.round v 6 - v) <= / 2000000.
Proof.
  unfold Float.round.
  replace (10 ^ 6) with 1000000 by (simpl; lra).
  pose proof (rint_half (v * 1000000)) as Hh.
  assert (- (1 / 2) <= IZR (Float.rint (v * 1000000)) - v * 1000000 <= 1 / 2)
    as [Hlo Hhi].
  { revert Hh. unfold Rabs.
    destruct (Rcase_abs (IZR (Float.rint (v * 1000000)) - v * 1000000)); lra. }
  apply Rabs_le. split.
  - apply Rmult_le_reg_r with (r := 1000000); [lra|]. field_simplify. lra.
  - apply Rmult_le_reg_r with (r := 1000000); [lra|]. field_simplify. lra.
Qed.

End RoundFacts.

Section LoopProperties.
Context `{H3}.
Implicit Types (call : string -> option Point.t -> result Point.t).

(** X10. A run of the loop that returns has kept the output it started with
    and appended one tuple for each valid token, in order: the appended part
    is never longer than the tokens, and as long exactly when every token is
    valid. This holds for whatever call resolves a token. *)
Theorem detokenize_loop_counts
    call (tokens : list string) (previous_point previous_point' : option Point.t)
    (out out' : list (R * R)) :
  detokenize_loop call tokens previous_point out = Ok (previous_point', out') ->
  exists appended : list (R * R),
    out' = out ++ appended
    /\ length appended
       = length (filter (fun t => h3_is_valid t = true) tokens)
    /\ length appended <= length tokens
    /\ (length appended = length tokens
        <-> Forall (fun t => h3_is_valid t = true) tokens).
Proof.
  intros Hrun.
  destruct (detokenize_loop_output _ _ _ _ _ _ Hrun) as (points & -> & Hlen & _).
  exists (map output_tuple points). rewrite length_map, Hlen.
  split; [reflexivity|]. split; [reflexivity|]. split.
  - apply length_filter.
  - apply filter_length_all.
Qed.

(** X11. An exception of the loop is the exception of one call: when a run
    raises [e], the tokens before some valid token were processed without
    error, and the call for that token, made with the previous point those
    tokens left, raised [e]. Skipping an invalid token raises nothing, and
    nothing of the output built so far is returned. *)
Theorem detokenize_loop_raise_origin
    call (tokens : list string) (previous_point : option Point.t)
    (out : list (R * R)) (e : exn) :
  detokenize_loop call tokens previous_point out = Raise e ->
  exists (before : list string) (token : string) (after : list string)
         (previous_point' : option Point.t) (out' : list (R * R)),
    tokens = before ++ token :: after
    /\ h3_is_valid token = true
    /\ detokenize_loop call before previous_point out
       = Ok (previous_point', out')
    /\ call token previous_point' = Raise e.
Proof.
  revert previous_point out.
  induction tokens as [|token rest IH]; intros previous_point out Hrun.
  - discriminate.
  - destruct (h3_is_valid token) eqn:Hv.
    + rewrite (detokenize_loop_valid _ _ _ _ _ Hv) in Hrun.
      destruct (call token previous_point) as [point|e'] eqn:Hcall.
      * cbn [mbind result_bind] in Hrun.
        destruct (IH _ _ Hrun) as (before & t & after & p' & o' & -> & Ht & Hb & Hc).
        exists (token :: before), t, after, p', o'.
        repeat split; [exact Ht| |exact Hc].
        cbn [app]. rewrite (detokenize_loop_valid _ _ _ _ _ Hv), Hcall.
        exact Hb.
      * cbn [mbind result_bind] in Hrun. injection Hrun as ->.
        exists [], token, rest, previous_point, out. auto.
    + rewrite (detokenize_loop_invalid _ _ _ _ _ Hv) in Hrun.
      destruct (IH _ _ Hrun) as (before & t & after & p' & o' & -> & Ht & Hb & Hc).
      exists (token :: before), t, after, p', o'.
      repeat split; [exact Ht| |exact Hc].
      cbn [app]. rewrite (detokenize_loop_invalid _ _ _ _ _ Hv). exact Hb.
Qed.

(** X12. When no token is valid the loop makes no call at all: it returns
    the previous point and the output it was given, for whatever call
    resolves a token, and [detokenize_trajectory] returns the empty list. *)
Theorem detokenize_loop_all_invalid
    call (tokens : list string) (previous_point : option Point.t)
    (out : list (R * R)) :
  Forall (fun t => h3_is_valid t = false) tokens ->
  detokenize_loop call tokens previous_point out = Ok (previous_point, out)
  /\ detokenize_trajectory tokens = Ok [].
Proof.
  intros Hall.
  assert (Hloop : forall c, detokenize_loop c tokens previous_point out
                            = Ok (previous_point, out)).
  { intros c. induction Hall as [|token rest Hv _ IH]; [reflexivity|].
    rewrite (detokenize_loop_invalid _ _ _ _ _ Hv). exact IH. }
  split; [apply Hloop|].
  unfold detokenize_trajectory.
  assert (Hnone : detokenize_loop detokenize_call tokens None []
                  = Ok (None, [])).
  { clear Hloop. induction Hall as [|token rest Hv _ IH]; [reflexivity|].
    rewrite (detokenize_loop_invalid _ _ _ _ _ Hv). exact IH. }
  rewrite Hnone. reflexivity.
Qed.

(** X13. A trajectory can be detokenized in chunks: when the loop over the
    first chunk returns a previous point and an output, the loop over the
    whole sequence is the loop over the second chunk started from them; and
    when the first chunk raises, the whole sequence raises the same. *)
Theorem detokenize_loop_chunks
    call (first second : list string) (previous_point : option Point.t)
    (out : list (R * R)) :
  (forall previous_point' out',
     detokenize_loop call first previous_point out
     = Ok (previous_point', out') ->
     detokenize_loop call (first ++ second) previous_point out
     = detokenize_loop call second previous_point' out')
  /\ (forall e,
        detokenize_loop call first previous_point out = Raise e ->
        detokenize_loop call (first ++ second) previous_point out = Raise e).
Proof.
  split.
  - intros p' o' Hfirst. rewrite detokenize_loop_app, Hfirst. reflexivity.
  - intros e Hfirst. rewrite detokenize_loop_app, Hfirst. reflexivity.
Qed.

(** X14. The two entry points do not compose as the module is written: on a
    grid whose tokens pass the validity check, tokenizing a non-empty
    trajectory and detokenizing the result raises TypeError. *)
Theorem tokenize_then_detokenize_raises
    (trajectory : list (R * R)) (resolution : Z) :
  (forall lat lon : R, h3_is_valid (geo_to_h3 lat lon resolution) = true) ->
  trajectory <> [] ->
  detokenize_trajectory (tokenize_trajectory trajectory resolution)
  = Raise TypeError.
Proof.
  intros Hvalid Hne. destruct trajectory as [|[lat lon] rest]; [contradiction|].
  unfold detokenize_trajectory. rewrite detokenize_loop_as_written.
  rewrite tokenize_trajectory_map. cbn [fmap list_fmap existsb fst snd].
  rewrite Hvalid. reflexivity.
Qed.

(** X15. Each coordinate the loop appends for a valid token is within half
    a unit of the sixth decimal place (0.0000005) of the coordinate of the
    point the call returned. *)
Theorem appended_tuple_close
    call (token : string) (previous_point : option Point.t)
    (out : list (R * R)) (point : Point.t) :
  h3_is_valid token = true ->
  call token previous_point = Ok point ->
  exists lat lon : R,
    detokenize_loop call [token] previous_point out
    = Ok (Some point, out ++ [(lat, lon)])
    /\ (Rabs (lat - Point.y point) <= / 2000000)%R
    /\ (Rabs (lon - Point.x point) <= / 2000000)%R.
Proof.
  intros Hv Hcall.
  exists (Float.round (Point.y point) 6), (Float.round (Point.x point) 6).
  split; [|split; apply round_6_close].
  rewrite (detokenize_loop_valid _ _ _ _ _ Hv), Hcall. reflexivity.
Qed.

End LoopProperties.

(** X10, on the sample grid: of the two tokens "zz" and the sample cell, one
    is valid, and one tuple is appended. *)
Lemma detokenize_loop_counts_sample :
  exists appended : list (R * R),
    [(Float.round 4 6, Float.round 3 6)] = [] ++ appended
    /\ length appended = 1.
Proof.
  destruct (@detokenize_loop_counts Sample.grid
              (@DeTokenizer.token2point_cluster_centroid Sample.grid
                 (Sample.store 21))
              ["zz"; Sample.cell] None (Some (Point.mk 3 4)) []
              [(Float.round 4 6, Float.round 3 6)] eq_refl)
    as (appended & Happ & Hlen & _).
  exists appended. split; [exact Happ|exact Hlen].
Defined.

(** X11, on the store whose model predicts a stray label: the first token is
    resolved without a previous point, the second raises IndexError. *)
Lemma detokenize_loop_raise_origin_sample :
  exists (before : list string) (token : string) (after : list string)
         (previous_point' : option Point.t) (out' : list (R * R)),
    [Sample.cell; Sample.cell] = before ++ token :: after
    /\ @h3_is_valid Sample.grid token = true
    /\ @detokenize_loop Sample.grid
         (@DeTokenizer.token2point_cluster_centroid Sample.grid
            Sample.stray_label)
         before None []
       = Ok (previous_point', out')
    /\ @DeTokenizer.token2point_cluster_centroid Sample.grid
         Sample.stray_label token previous_point'
       = Raise IndexError.
Proof.
  exact (@detokenize_loop_raise_origin Sample.grid
           (@DeTokenizer.token2point_cluster_centroid Sample.grid
              Sample.stray_label)
           [Sample.cell; Sample.cell] None [] IndexError eq_refl).
Defined.

(** X12, on the sample grid: neither "zz" nor "yy" is a cell. *)
Lemma detokenize_loop_all_invalid_sample :
  @detokenize_loop Sample.grid
    (@DeTokenizer.token2point_cluster_centroid Sample.grid (Sample.store 21))
    ["zz"; "yy"] None []
  = Ok (None, [])
  /\ @detokenize_trajectory Sample.grid ["zz"; "yy"] = Ok [].
Proof.
  apply (@detokenize_loop_all_invalid Sample.grid).
  repeat constructor.
Defined.

(** X14, on the sample grid, whose every token is the sample cell. *)
Lemma tokenize_then_detokenize_raises_sample :
  @detokenize_trajectory Sample.grid
    (@tokenize_trajectory Sample.grid [(1, 2)%R] 9)
  = Raise TypeError.
Proof.
  apply (@tokenize_then_detokenize_raises Sample.grid).
  - intros lat lon. reflexivity.
  - discriminate.
Defined.

(** X15, on the sample grid and store: the data centroid (3, 4). *)
Lemma appended_tuple_close_sample :
  exists lat lon : R,
    @detokenize_loop Sample.grid
      (@DeTokenizer.token2point_cluster_centroid Sample.grid (Sample.store 21))
      [Sample.cell] None []
    = Ok (Some (Point.mk 3 4), [] ++ [(lat, lon)])
    /\ (Rabs (lat - 4) <= / 2000000)%R
    /\ (Rabs (lon - 3) <= / 2000000)%R.
Proof.
  exact (@appended_tuple_close Sample.grid
           (@DeTokenizer.token2point_cluster_centroid Sample.grid
              (Sample.store 21))
           Sample.cell None [] (Point.mk 3 4) eq_refl eq_refl).
Defined.

(** ** The metadata loader: what the returned dict holds *)

Section LoaderProperties.
Implicit Types (metadata : gmap string string) (line key value : string).

Lemma length_append (s1 s2 : string) :
  String.length (s1 +:+ s2) = String.length s1 + String.length s2.
Proof.
  induction s1 as [|c s1 IH]; [reflexivity|].
  rewrite append_cons. cbn [String.length]. rewrite IH. reflexivity.
Qed.

(** The text before the leftmost separator holds no separator. *)
Lemma find_key_clean (sep s key value : string) :
  0 < String.length sep ->
  Str.find sep s = Some (key, value) ->
  forall a b : string, key <> a +:+ sep +:+ b.
Proof.
  intros Hsep Hf a b Hk.
  destruct (find_Some _ _ _ _ Hf) as [Hs Hmin].
  assert (Hlen : String.length key <= String.length a).
  { apply (Hmin a (b +:+ sep +:+ value)).
    rewrite Hs, Hk, !append_assoc. reflexivity. }
  rewrite Hk, !length_append in Hlen. lia.
Qed.

Lemma load_metadata_line_inv metadata metadata' line :
  load_metadata_line metadata line = Ok metadata' ->
  exists key value,
    Str.find ": " (Str.strip line) = Some (key, value)
    /\ metadata' = <[key := value]> metadata.
Proof.
  destruct (Str.find ": " (Str.strip line)) as [[key value]|] eqn:Hf.
  - rewrite (load_metadata_line_found _ _ _ _ Hf). intros Heq.
    injection Heq as <-. eauto.
  - rewrite (load_metadata_line_not_found _ _ Hf). discriminate.
Qed.

Lemma load_metadata_loop_app (first second : list string) metadata :
  load_metadata_loop (first ++ second) metadata
  = (metadata' ← load_metadata_loop first metadata;
     load_metadata_loop second metadata').
Proof.
  revert metadata. induction first as [|line first IH]; intros metadata.
  - reflexivity.
  - cbn [app load_metadata_loop].
    destruct (load_metadata_line metadata line) as [metadata'|e];
      [|reflexivity].
    cbn [mbind result_bind]. apply IH.
Qed.

Lemma load_metadata_loop_entries (lines : list string) metadata metadata' :
  load_metadata_loop lines metadata = Ok metadata' ->
  (forall key value,
     metadata' !! key = Some value ->
     metadata !! key = Some value
     \/ exists line,
          line ∈ lines
          /\ Str.strip line = key +:+ ": " +:+ value
          /\ forall a b : string, key <> a +:+ ": " +:+ b)
  /\ size metadata' <= size metadata + length lines.
Proof.
  revert metadata. induction lines as [|line rest IH]; intros metadata Hrun.
  - cbn in Hrun. injection Hrun as <-. split; [auto|lia].
  - cbn [load_metadata_loop] in Hrun.
    destruct (load_metadata_line metadata line) as [metadata1|e] eqn:Hl;
      [|discriminate].
    cbn [mbind result_bind] in Hrun.
    destruct (load_metadata_line_inv _ _ _ Hl) as (k1 & v1 & Hf & ->).
    destruct (IH _ Hrun) as [Hent Hsize]. split.
    + intros key value Hlook.
      destruct (Hent _ _ Hlook) as [Hin|(l & Hl' & Hs & Hclean)].
      * apply lookup_insert_Some in Hin.
        destruct Hin as [[<- <-]|[_ Hold]]; [|auto].
        right. exists line. split; [apply list_elem_of_here|].
        split; [exact (proj1 (find_Some _ _ _ _ Hf))|].
        apply (find_key_clean ": " _ _ _ (Nat.lt_0_succ 1) Hf).
      * right. exists l. split; [apply list_elem_of_further, Hl'|auto].
    + rewrite map_size_insert in Hsize. cbn [length].
      destruct (metadata !! k1); unfold Datatypes.id in Hsize; lia.
Qed.

Lemma lstrip_blank (s : string) :
  forallb Str.isspace (list_ascii_of_string s) = true -> Str.lstrip s = "".
Proof.
  induction s as [|c s IH]; [reflexivity|].
  cbn [list_ascii_of_string forallb Str.lstrip].
  destruct (Str.isspace c); [exact IH|discriminate].
Qed.

(** X17. Loading a file is loading its first part and then going on with
    the rest from the dict reached: the lines of two files put end to end
    load as the second loaded on top of the first, and an error in the
    first part is the error of the whole. *)
Theorem load_metadata_concat (first second : list string) :
  load_metadata (first ++ second)
  = (metadata ← load_metadata first; load_metadata_loop second metadata).
Proof. unfold load_metadata. apply load_metadata_loop_app. Qed.

(** X18. The dict [load_metadata] returns holds nothing but what the lines
    say: every entry comes from a line whose stripped text is the key, the
    separator ": " and the value; no key holds the separator; and there are
    at most as many keys as lines. *)
Theorem load_metadata_entries (lines : list string) metadata :
  load_metadata lines = Ok metadata ->
  (forall key value,
     metadata !! key = Some value ->
     exists line,
       line ∈ lines
       /\ Str.strip line = key +:+ ": " +:+ value
       /\ forall a b : string, key <> a +:+ ": " +:+ b)
  /\ size metadata <= length lines.
Proof.
  intros Hrun. destruct (load_metadata_loop_entries _ _ _ Hrun) as [Hent Hsize].
  split.
  - intros key value Hlook.
    destruct (Hent _ _ Hlook) as [Hin|Hline]; [|exact Hline].
    rewrite lookup_empty in Hin. discriminate.
  - rewrite map_size_empty in Hsize. lia.
Qed.

(** X19. The last line wins: when the loader returns, the key of the last
    line of the file maps to the value of that line, whatever earlier lines
    gave the same key. *)
Theorem load_metadata_last_line (lines : list string) line key value metadata :
  Str.split ": " 1 (Str.strip line) = [key; value] ->
  load_metadata (lines ++ [line]) = Ok metadata ->
  metadata !! key = Some value.
Proof.
  intros Hsplit. unfold load_metadata. rewrite load_metadata_loop_app.
  destruct (load_metadata_loop lines ∅) as [metadata1|e]; [|discriminate].
  cbn [mbind result_bind load_metadata_loop].
  unfold load_metadata_line. rewrite Hsplit. cbn [mbind result_bind].
  intros Heq. injection Heq as <-. apply lookup_insert_eq.
Qed.

(** X20. The loader returns exactly when the stripped text of every line
    holds the separator ": ", and the only exception it raises over the
    lines is ValueError. *)
Theorem load_metadata_returns_iff (lines : list string) :
  ((exists metadata, load_metadata lines = Ok metadata)
   <-> Forall (fun line =>
                 exists a b : string, Str.strip line = a +:+ ": " +:+ b)
              lines)
  /\ (forall e, load_metadata lines = Raise e -> e = ValueError).
Proof.
  unfold load_metadata. generalize (∅ : gmap string string) as metadata.
  induction lines as [|line rest IH]; intros metadata.
  - split; [|discriminate]. split; [constructor|]. intros _. eexists.
    reflexivity.
  - cbn [load_metadata_loop].
    destruct (Str.find ": " (Str.strip line)) as [[key value]|] eqn:Hf.
    + rewrite (load_metadata_line_found _ _ _ _ Hf). cbn [mbind result_bind].
      destruct (IH (<[key := value]> metadata)) as [Hiff Hexn].
      split; [|exact Hexn]. rewrite Forall_cons, <- Hiff.
      split; [|tauto]. intros Hex. split; [|exact Hex].
      exists key, value. exact (proj1 (find_Some _ _ _ _ Hf)).
    + rewrite (load_metadata_line_not_found _ _ Hf). cbn [mbind result_bind].
      split; [|congruence]. split.
      * intros [m Hm]. discriminate.
      * intros Hall. apply Forall_cons in Hall.
        destruct Hall as [(a & b & Hs) _].
        exfalso. exact (find_None _ _ Hf _ _ Hs).
Qed.

(** X21. A blank line stops the loader: a line that is empty or made of
    whitespace only, anywhere in the file, makes it raise ValueError. *)
Theorem load_metadata_blank_line (lines : list string) line :
  line ∈ lines ->
  forallb Str.isspace (list_ascii_of_string line) = true ->
  load_metadata lines = Raise ValueError.
Proof.
  intros Hin Hblank. unfold load_metadata.
  apply (load_metadata_loop_bad_line lines line ∅ Hin).
  unfold Str.strip. rewrite (lstrip_blank _ Hblank). reflexivity.
Qed.

End LoaderProperties.

(** X18, on a file of two lines: at most two keys. *)
Lemma load_metadata_entries_sample :
  size (<["b" := "2"]> (<["a" := "1"]> (∅ : gmap string string))) <= 2.
Proof.
  exact (proj2 (load_metadata_entries ["a: 1"; "b: 2"]
                  (<["b" := "2"]> (<["a" := "1"]> ∅)) eq_refl)).
Defined.

(** X19, on a file that gives the key "k" twice. *)
Lemma load_metadata_last_line_sample :
  (<["k" := "new"]> (<["k" := "old"]> (∅ : gmap string string))) !! "k"
  = Some "new".
Proof.
  exact (load_metadata_last_line ["k: old"] "k: new" "k" "new"
           (<["k" := "new"]> (<["k" := "old"]> ∅)) eq_refl eq_refl).
Defined.

(** X21, on a file whose second line is two spaces. *)
Lemma load_metadata_blank_line_sample :
  load_metadata ["k: v"; "  "] = Raise ValueError.
Proof.
  apply (load_metadata_blank_line ["k: v"; "  "] "  ").
  - apply list_elem_of_In. right. left. reflexivity.
  - reflexivity.
Defined.
